(** * EPUB table of contents to Markdown: a shallow embedding

    Embedding of [src/epub_toc/epub_toc.py] (and of the older copy of
    [walk_toc] in [extract_chapter.py]) together with the properties of
    the flattener, the renderer and the output-path derivation.

    Conventions.
    - A Python [str] is a list of Unicode code points ([list N]).
    - A generator is the list of the values it yields, paired with the
      exception that ended it, if any.
    - [ebooklib] and [str.title] are outside the repository: the loader
      [read_epub] and the title-casing function are section variables. *)

From Stdlib Require Import String Ascii NArith List Lia.
From stdpp Require Import base decidable option list countable gmap.
Import ListNotations.

Local Open Scope list_scope.

(** ** Strings *)

Definition char := N.
Definition str := list N.

(** A literal, written as a Rocq string of ASCII characters. *)
Definition lit (s : string) : str := map N_of_ascii (list_ascii_of_string s).

Definition NL : char := 10%N.
Definition HASH : char := 35%N.
Definition SPACE : char := 32%N.
Definition SLASH : char := 47%N.
Definition DOT : char := 46%N.

(** [str.isspace] on one code point, the set that [str.strip()] removes:
    the ASCII table of CPython (TAB..CR, FS..US, SPACE) and the Unicode
    white space outside ASCII. *)
Definition is_space (c : char) : bool :=
  (((9 <=? c) && (c <=? 13)) || ((28 <=? c) && (c <=? 32))
   || (c =? 133) || (c =? 160) || (c =? 5760)
   || ((8192 <=? c) && (c <=? 8202))
   || (c =? 8232) || (c =? 8233) || (c =? 8239) || (c =? 8287) || (c =? 12288))%N.

(** [s.lstrip()] *)
Fixpoint lstrip (s : str) : str :=
  match s with
  | c :: rest => if is_space c then lstrip rest else s
  | [] => []
  end.

(** [s.rstrip()] *)
Definition rstrip (s : str) : str := rev (lstrip (rev s)).

(** [s.strip()] *)
Definition strip (s : str) : str := rstrip (lstrip s).

(** ["#" * n] and friends *)
Definition str_mul (c : char) (n : nat) : str := repeat c n.

(** [sep.join(lines)] *)
Fixpoint join (sep : str) (lines : list str) : str :=
  match lines with
  | [] => []
  | [l] => l
  | l :: rest => l ++ sep ++ join sep rest
  end.

(** ** Python values found in a navigation tree

    [walk_toc] inspects the run-time type of what it is given, so the
    tree is a tree of Python values, not of a dedicated node type. *)

#[local] Unset Elimination Schemes.
Inductive pyval : Type :=
| Link (title : option str)      (* ebooklib.epub.Link; href and uid are not read *)
| Section (title : option str)   (* ebooklib.epub.Section; None also stands for a missing attribute *)
| PyTuple (elems : list pyval)
| PyList (elems : list pyval)
| PyObj.                         (* any other, non-iterable, object: None, a number, an EpubHtml, ... *)
#[local] Set Elimination Schemes.

Inductive exn : Type :=
| TypeError
| ValueError
| OSError
| LoadError (what : str).        (* whatever the loader raises *)

(** A yielded pair [(title, level)]. *)
Definition entry := (str * nat)%type.

(** What a generator did: the values yielded, then [None] when it was
    exhausted or [Some e] when [e] was raised. *)
Definition gen := (list entry * option exn)%type.

Definition g_done : gen := ([], None).
Definition g_yield (e : entry) : gen := ([e], None).
Definition g_raise (e : exn) : gen := ([], Some e).

(** Run [g1], then [g2] unless [g1] raised. *)
Definition g_seq (g1 g2 : gen) : gen :=
  match g1 with
  | (out1, None) => (out1 ++ fst g2, snd g2)
  | (out1, Some e) => (out1, Some e)
  end.

Declare Scope gen_scope.
Delimit Scope gen_scope with gen.
Infix ">>" := g_seq (at level 62, right associativity) : gen_scope.

(** Truth value of a title: [None] and [""] are false. *)
Definition truthy (title : option str) : bool :=
  match title with
  | Some (_ :: _) => true
  | _ => false
  end.

(** [if title: yield title.strip(), level]: the test is on the title as
    it is stored, the strip happens afterwards. *)
Definition yield_title (title : option str) (level : nat) : gen :=
  match title with
  | Some s => if truthy (Some s) then g_yield (strip s, level) else g_done
  | None => g_done
  end.

(** [walk_toc(toc, level)], epub_toc.py lines 30-57. *)
Fixpoint walk_toc (toc : pyval) (level : nat) {struct toc} : gen :=
  match toc with
  | PyList items | PyTuple items =>
      (fix for_item (items : list pyval) : gen :=
         match items with
         | [] => g_done
         | item :: rest =>
             (match item with
              (* Case 1: a simple link *)
              | Link title => yield_title title level
              (* Case 2: (SectionObj, [children]) *)
              | PyTuple [Section title; children] =>
                  (yield_title title level >> walk_toc children (S level))%gen
              (* Case 3: bare Section object *)
              | Section title => yield_title title level
              | _ => g_done
              end >> for_item rest)%gen
         end) items
  | _ => g_raise TypeError         (* for item in toc: not iterable *)
  end.

(** The body of the [for] loop for one item and the loop itself, as
    functions of their own; [walk_toc_unfold] relates them to [walk_toc]. *)
Definition walk_item (item : pyval) (level : nat) : gen :=
  match item with
  | Link title => yield_title title level
  | PyTuple [Section title; children] =>
      (yield_title title level >> walk_toc children (S level))%gen
  | Section title => yield_title title level
  | _ => g_done
  end.

Fixpoint walk_items (items : list pyval) (level : nat) : gen :=
  match items with
  | [] => g_done
  | item :: rest => (walk_item item level >> walk_items rest level)%gen
  end.

(** The three tests of the loop body, as one predicate on an item. *)
Definition recognised (item : pyval) : bool :=
  match item with
  | Link _ => true
  | PyTuple [Section _; _] => true
  | Section _ => true
  | _ => false
  end.

(** [extract_chapter.py] carries its own copy of [walk_toc] (lines 28-55). *)
Module ExtractChapter.

Fixpoint walk_toc (toc : pyval) (level : nat) {struct toc} : gen :=
  match toc with
  | PyList items | PyTuple items =>
      (fix for_item (items : list pyval) : gen :=
         match items with
         | [] => g_done
         | item :: rest =>
             (match item with
              | Link title => yield_title title level
              | PyTuple [Section title; children] =>
                  (yield_title title level >> walk_toc children (S level))%gen
              | Section title => yield_title title level
              | _ => g_done
              end >> for_item rest)%gen
         end) items
  | _ => g_raise TypeError
  end.

End ExtractChapter.

(** ** Navigation trees

    The shape the loader produces and the spec calls NavigationNode: a
    sequence of links, of pairs [(Section, children)] and of bare
    sections. *)
Fixpoint nav_node (item : pyval) : bool :=
  match item with
  | Link _ => true
  | Section _ => true
  | PyTuple [Section _; PyList children] => forallb nav_node children
  | PyTuple [Section _; PyTuple children] => forallb nav_node children
  | _ => false
  end.

Definition nav_tree (toc : pyval) : bool :=
  match toc with
  | PyList items | PyTuple items => forallb nav_node items
  | _ => false
  end.

(** Number of nodes, nested ones included, whose title satisfies [p]. *)
Fixpoint count_node (p : option str -> bool) (item : pyval) : nat :=
  match item with
  | Link title | Section title => if p title then 1 else 0
  | PyTuple [Section title; PyList children]
  | PyTuple [Section title; PyTuple children] =>
      (if p title then 1 else 0) +
      (fix sum (items : list pyval) : nat :=
         match items with
         | [] => 0
         | child :: rest => count_node p child + sum rest
         end) children
  | _ => 0
  end.

Definition count_nodes (p : option str -> bool) (toc : pyval) : nat :=
  match toc with
  | PyList items | PyTuple items => list_sum (map (count_node p) items)
  | _ => 0
  end.

(** The title is there and is not empty once trimmed. *)
Definition trimmed_nonempty (title : option str) : bool :=
  match title with
  | Some s => match strip s with [] => false | _ => true end
  | None => false
  end.

(** ** Paths

    [pathlib.PurePosixPath] as far as [toc_to_markdown] uses it: a root
    and the list of the remaining components. *)
Record Path : Type := mkPath { root : str; tail : list str }.

#[global] Instance Path_eq_dec : EqDecision Path.
Proof. solve_decision. Defined.

#[global] Instance Path_countable : Countable Path.
Proof.
  apply (inj_countable' (fun p => (root p, tail p))
                        (fun rt => mkPath (fst rt) (snd rt))).
  intros []; reflexivity.
Defined.

Inductive result (A : Type) : Type :=
| Ok (a : A)
| Raise (e : exn).
Arguments Ok {A} a.
Arguments Raise {A} e.

(** [s.split(sep)] for a one-character separator. *)
Fixpoint split (sep : char) (s : str) : list str :=
  match s with
  | [] => [[]]
  | c :: rest =>
      if N.eqb c sep then [] :: split sep rest
      else match split sep rest with
           | w :: ws => (c :: w) :: ws
           | [] => [[c]]
           end
  end.

Definition str_eqb (a b : str) : bool := bool_decide (a = b).

(** [posixpath.splitroot(s)]: the root is "/", or "//" for exactly two
    leading slashes; the rest is what follows the root. *)
Definition splitroot (s : str) : str * str :=
  if negb (str_eqb (take 1 s) [SLASH]) then ([], s)
  else if negb (str_eqb (take 1 (drop 1 s)) [SLASH])
          || str_eqb (take 1 (drop 2 s)) [SLASH]
       then ([SLASH], drop 1 s)
       else (take 2 s, drop 2 s).

(** [Path(s)]: empty components and "." are dropped. *)
Definition Path_of (s : str) : Path :=
  let '(rt, rel) := splitroot s in
  mkPath rt (filter (fun x => x <> [] /\ x <> [DOT]) (split SLASH rel)).

(** [str(path)] *)
Definition Path_str (p : Path) : str :=
  match root p ++ join [SLASH] (tail p) with
  | [] => [DOT]
  | s => s
  end.

(** [path.name]: the last component, [""] when there is none. *)
Definition name (p : Path) : str := default [] (last (tail p)).

(** [name.rfind(".")] *)
Fixpoint rfind (c : char) (s : str) : option nat :=
  match s with
  | [] => None
  | x :: rest =>
      match rfind c rest with
      | Some i => Some (S i)
      | None => if N.eqb x c then Some 0 else None
      end
  end.

(** [path.suffix]: from the last dot on, unless that dot is the first or
    the last character of the name (pathlib of CPython up to 3.13). *)
Definition suffix (p : Path) : str :=
  match rfind DOT (name p) with
  | Some i => if (0 <? i) && (i <? length (name p) - 1)
              then drop i (name p) else []
  | None => []
  end.

(** [path.stem] *)
Definition stem (p : Path) : str :=
  match rfind DOT (name p) with
  | Some i => if (0 <? i) && (i <? length (name p) - 1)
              then take i (name p) else name p
  | None => name p
  end.

(** [path.with_name(new)]: refuses a path without a name and a new name
    that is empty, is "." or holds a separator. *)
Definition with_name (p : Path) (new : str) : result Path :=
  if str_eqb (name p) [] then Raise ValueError
  else if str_eqb new [] || bool_decide (SLASH ∈ new) || str_eqb new [DOT]
       then Raise ValueError
       else Ok (mkPath (root p) (removelast (tail p) ++ [new])).

(** [path.parent], the directory of the path. *)
Definition parent (p : Path) : Path := mkPath (root p) (removelast (tail p)).

(** Lines 63-65: the output file, next to the input. *)
Definition output_file_of (epub_path : Path) : result Path :=
  let base_name := stem epub_path in
  with_name epub_path (base_name ++ lit " - ToC.md").

(** ** The book, as the loader returns it *)

(** One value of a metadata list: ebooklib stores pairs [(value, attrs)];
    the code also accepts a value that is not a tuple. The value itself is
    a [str] or [None]. *)
Inductive meta_item : Type :=
| MetaTuple (value : option str)
| MetaPlain (value : option str).

Record book : Type := mkBook {
  metadata : gmap str (gmap str (list meta_item));
  toc : pyval
}.

Definition DC : str := lit "http://purl.org/dc/elements/1.1/".

(** [book.metadata.get(DC, {}).get('title', [])] *)
Definition dc_titles (b : book) : list meta_item :=
  default [] (default ∅ (metadata b !! DC) !! lit "title").

(** Lines 67-72. The result is what ends up in [book_title]: a [str], or
    [None] when the first title value is [None]. *)
Definition book_title_of (b : book) : option str :=
  let book_title := Some (lit "Untitled") in
  if bool_decide (is_Some (metadata b !! DC)) then
    match dc_titles b with
    | MetaTuple value :: _ => value     (* titles[0][0] *)
    | MetaPlain value :: _ => value     (* titles[0] *)
    | [] => book_title
    end
  else book_title.

(** [f"{v}"] for a value that is a [str] or [None]. *)
Definition format (v : option str) : str := default (lit "None") v.

(** Lines 88-92: one heading line is appended per collected title. *)
Definition add_entries (toc_titles : list entry) (md_lines : list str) : list str :=
  fold_left
    (fun md_lines '(title, level) =>
       let heading_level := level + 2 in
       let hashes := str_mul HASH heading_level in
       md_lines ++ [hashes ++ [SPACE] ++ title])
    toc_titles md_lines.

(** Lines 74-78 and 88-94: the text handed to [write_text] for a book
    title and the collected [(title, level)] pairs. *)
Definition md_document (book_title : option str) (toc_titles : list entry) : str :=
  let md_lines := [] in
  let md_lines := md_lines ++ [lit "# " ++ format book_title] in
  let md_lines := md_lines ++ [[]] in
  let md_lines := add_entries toc_titles md_lines in
  join [NL] md_lines ++ [NL].

(** ** The world: files, and what was printed *)

Record world : Type := mkWorld {
  files : gmap Path str;       (* content of the files that exist *)
  unwritable : gset Path;      (* paths that cannot be opened for writing *)
  stdout : list str            (* lines printed so far *)
}.

(** [path.write_text(data, encoding="utf-8")]: creates the file or
    replaces its content. The content is kept as the [str] written; its
    encoding is not modelled. *)
Definition write_text (p : Path) (data : str) (w : world) : result world :=
  if bool_decide (p ∈ unwritable w) then Raise OSError
  else Ok (mkWorld (<[p := data]> (files w)) (unwritable w) (stdout w)).

Definition print (line : str) (w : world) : world :=
  mkWorld (files w) (unwritable w) (stdout w ++ [line]).

Section Program.

(** [ebooklib.epub.read_epub]: reads the files, returns a book or raises. *)
Variable read_epub : gmap Path str -> str -> result book.

(** [str.title] *)
Variable str_title : str -> str.

(** Lines 80-86: drain the generator into [toc_titles] and
    [titleized_toc]. *)
Definition collect (yielded : list entry) : list entry * gset str :=
  fold_left
    (fun '(toc_titles, titleized_toc) '(title, level) =>
       (toc_titles ++ [(title, level)], {[ str_title title ]} ∪ titleized_toc))
    yielded ([], ∅).

(** [toc_to_markdown(epub_path)], epub_toc.py lines 60-96: the world
    after the call, and whether it returned or raised. *)
Definition toc_to_markdown (epub_path : Path) (w : world) : world * result unit :=
  match read_epub (files w) (Path_str epub_path) with
  | Raise e => (w, Raise e)
  | Ok book =>
      match output_file_of epub_path with
      | Raise e => (w, Raise e)
      | Ok output_file =>
          let book_title := book_title_of book in
          match walk_toc (toc book) 0 with
          | (_, Some e) => (w, Raise e)
          | (yielded, None) =>
              let '(toc_titles, titleized_toc) := collect yielded in
              match write_text output_file (md_document book_title toc_titles) w with
              | Raise e => (w, Raise e)
              | Ok w' =>
                  (print ([9989%N] ++ lit " Success! Table of contents saved to: "
                          ++ Path_str output_file) w', Ok tt)
              end
          end
      end
  end.

(** [main()], once [parse_args()] has returned the positional argument. *)
Definition main (epub_file : str) (w : world) : world * result unit :=
  toc_to_markdown (Path_of epub_file) w.


End Program.

(** ** Sample data

    The tree and the book of the scenario of the spec, and two loaders. *)
Definition sample_toc : pyval :=
  PyList [Link (Some (lit "Preface"));
          PyTuple [Section (Some (lit "Part 1"));
                   PyList [Link (Some (lit "Ch 1")); Link (Some (lit "Ch 2"))]];
          Link (Some (lit ""))].

Definition sample_book : book :=
  mkBook {[ DC := {[ lit "title" := [MetaTuple (Some (lit "Sample"))] ]} ]}
         sample_toc.

(** A book without metadata and with an empty table of contents. *)
Definition blank_book : book := mkBook ∅ (PyList []).

(** A book whose only title entry has no text, as an empty [dc:title]
    element gives: the value of the entry is [None]. The table of
    contents is empty. *)
Definition none_title_book : book :=
  mkBook {[ DC := {[ lit "title" := [MetaTuple None] ]} ]} (PyList []).

(** A loader that raises unless the file exists, and then returns
    [blank_book]. *)
Definition load_blank (fs : gmap Path str) (file_name : str) : result book :=
  match fs !! Path_of file_name with
  | Some _ => Ok blank_book
  | None => Raise (LoadError (lit "No such file or directory"))
  end.

Definition empty_world : world := mkWorld ∅ ∅ [].

(** A world with one file, "book.epub". *)
Definition one_book_world : world :=
  mkWorld {[ Path_of (lit "book.epub") := lit "PK" ]} ∅ [].

(** ** The older script, extract_chapter.py

    Its [walk_toc] is [ExtractChapter.walk_toc] above; its
    [toc_to_markdown] (lines 58-74) writes the entry lines only, without
    the book title, and prints another message. *)
Module ExtractChapterScript.

(** Lines 65-72: the text handed to [write_text]. *)
Definition md_document (yielded : list entry) : str :=
  let md_lines := [] in
  let md_lines := add_entries yielded md_lines in
  join [NL] md_lines ++ [NL].

Section Program.

Variable read_epub : gmap Path str -> str -> result book.

Definition toc_to_markdown (epub_path : Path) (w : world) : world * result unit :=
  match read_epub (files w) (Path_str epub_path) with
  | Raise e => (w, Raise e)
  | Ok book =>
      match output_file_of epub_path with
      | Raise e => (w, Raise e)
      | Ok output_file =>
          match ExtractChapter.walk_toc (toc book) 0 with
          | (_, Some e) => (w, Raise e)
          | (yielded, None) =>
              match write_text output_file (md_document yielded) w with
              | Raise e => (w, Raise e)
              | Ok w' =>
                  (print (lit "[OK] TOC saved to: " ++ Path_str output_file) w',
                   Ok tt)
              end
          end
      end
  end.

Definition main (epub_file : str) (w : world) : world * result unit :=
  toc_to_markdown (Path_of epub_file) w.

End Program.

End ExtractChapterScript.

(** ** Predicates used to state the properties *)

(** A title that passes the truth test and is empty once stripped. *)
Definition blank_title (title : option str) : bool :=
  truthy title && negb (trimmed_nonempty title).

(** Some Link or Section anywhere in the value has a blank title. *)
Fixpoint has_blank_title (v : pyval) : bool :=
  match v with
  | Link title | Section title => blank_title title
  | PyTuple elems | PyList elems =>
      (fix any (l : list pyval) : bool :=
         match l with
         | [] => false
         | x :: r => has_blank_title x || any r
         end) elems
  | PyObj => false
  end.

(** [for item in v] is possible. *)
Definition iterable (v : pyval) : bool :=
  match v with
  | PyList _ | PyTuple _ => true
  | _ => false
  end.

(** The paths that [Path(...)] builds: one of the three roots, and
    components that are not empty, are not "." and hold no separator. *)
Definition wf_Path (p : Path) : Prop :=
  (root p = [] \/ root p = [SLASH] \/ root p = [SLASH; SLASH])
  /\ Forall (fun x => x <> [] /\ x <> [DOT] /\ SLASH ∉ x) (tail p).

(** Levels moved by [k]. *)
Definition shift_levels (k : nat) (out : list entry) : list entry :=
  map (fun '(title, level) => (title, level + k)) out.

Definition g_shift (k : nat) (g : gen) : gen := (shift_levels k (fst g), snd g).

(** [line.split(sep, 1)], as the tests use it to take a heading line
    apart: the line itself when it has no separator, otherwise what is
    before the first separator and what is after it. *)
Fixpoint split_once (sep : char) (line : str) : list str :=
  match line with
  | [] => [[]]
  | c :: rest =>
      if N.eqb c sep then [[]; rest]
      else match split_once sep rest with
           | [before; after] => [c :: before; after]
           | _ => [c :: rest]
           end
  end.

(** * Properties *)

(** ** Generators *)

Lemma g_seq_done_l (g : gen) : (g_done >> g)%gen = g.
Proof. destruct g; reflexivity. Qed.

Lemma g_seq_done_r (g : gen) : (g >> g_done)%gen = g.
Proof.
  destruct g as [out [e|]]; simpl; [reflexivity|].
  now rewrite app_nil_r.
Qed.

Lemma g_seq_assoc (g1 g2 g3 : gen) :
  ((g1 >> g2) >> g3)%gen = (g1 >> (g2 >> g3))%gen.
Proof.
  destruct g1 as [o1 [e1|]], g2 as [o2 [e2|]], g3 as [o3 e3]; simpl;
    try reflexivity.
  now rewrite <- app_assoc.
Qed.

(** ** Induction on Python values, nested lists included *)

Lemma pyval_ind (P : pyval -> Prop)
  (HLink : forall title, P (Link title))
  (HSection : forall title, P (Section title))
  (HTuple : forall elems, Forall P elems -> P (PyTuple elems))
  (HList : forall elems, Forall P elems -> P (PyList elems))
  (HObj : P PyObj) :
  forall v, P v.
Proof.
  fix IH 1. intros [title|title|elems|elems|].
  - apply HLink.
  - apply HSection.
  - apply HTuple. induction elems as [|x r IHr]; constructor; [apply IH | exact IHr].
  - apply HList. induction elems as [|x r IHr]; constructor; [apply IH | exact IHr].
  - apply HObj.
Qed.

(** ** The loop of [walk_toc] *)

Lemma walk_toc_list (items : list pyval) (level : nat) :
  walk_toc (PyList items) level = walk_items items level.
Proof.
  simpl. induction items as [|item rest IH]; [reflexivity|].
  simpl. now rewrite IH.
Qed.

Lemma walk_toc_tuple (items : list pyval) (level : nat) :
  walk_toc (PyTuple items) level = walk_items items level.
Proof.
  simpl. induction items as [|item rest IH]; [reflexivity|].
  simpl. now rewrite IH.
Qed.

Lemma walk_items_app (pre post : list pyval) (level : nat) :
  walk_items (pre ++ post) level
  = (walk_items pre level >> walk_items post level)%gen.
Proof.
  induction pre as [|item pre IH]; cbn [app walk_items].
  - now rewrite g_seq_done_l.
  - now rewrite IH, g_seq_assoc.
Qed.

Lemma walk_items_cons (item : pyval) (rest : list pyval) (level : nat) :
  walk_items (item :: rest) level
  = (walk_item item level >> walk_items rest level)%gen.
Proof. reflexivity. Qed.

(** An item that passes none of the three tests does nothing. *)
Lemma walk_item_unrecognised (item : pyval) (level : nat) :
  recognised item = false -> walk_item item level = g_done.
Proof.
  destruct item as [t|t|elems|elems|]; simpl; try discriminate; try reflexivity.
  destruct elems as [|[t|t|e|e|] [|children [|x elems]]]; simpl;
    try discriminate; reflexivity.
Qed.

(** The two copies of [walk_toc] have the same text, hence are the same
    function. *)
Lemma walk_toc_copies (toc : pyval) (level : nat) :
  ExtractChapter.walk_toc toc level = walk_toc toc level.
Proof. reflexivity. Qed.

Lemma yield_title_truthy (title : option str) (level : nat) :
  yield_title title level
  = (if truthy title then [(strip (default [] title), level)] else [], None).
Proof. destruct title as [[|c s]|]; reflexivity. Qed.

(** A title that is not empty once trimmed is not empty to begin with. *)
Lemma strip_nonempty_truthy (s : str) : strip s <> [] -> truthy (Some s) = true.
Proof. destruct s; [intros H; now elim H | reflexivity]. Qed.

Lemma yield_title_trimmed (s : str) (level : nat) :
  strip s <> [] -> yield_title (Some s) level = ([(strip s, level)], None).
Proof.
  intros H. rewrite yield_title_truthy, (strip_nonempty_truthy s H). reflexivity.
Qed.

Lemma yield_title_empty (title : option str) (level : nat) :
  title = None \/ title = Some [] -> yield_title title level = g_done.
Proof. intros [->| ->]; reflexivity. Qed.

(** Links with non-empty titles are yielded one by one, in order. *)
Lemma walk_items_links (titles : list str) (level : nat) :
  Forall (fun t => t <> []) titles ->
  walk_items (map (fun t => Link (Some t)) titles) level
  = (map (fun t => (strip t, level)) titles, None).
Proof.
  induction 1 as [|t titles Ht _ IH]; [reflexivity|].
  cbn [map walk_items walk_item]. rewrite IH, yield_title_truthy.
  destruct t; [now elim Ht | reflexivity].
Qed.

(** The three cases of tests/test_epub_toc.py, class TestWalkTOC. *)
Example test_walk_toc_with_links :
  walk_toc (PyList [Link (Some (lit "Chapter 1")); Link (Some (lit "Chapter 2"))]) 0
  = ([(lit "Chapter 1", 0); (lit "Chapter 2", 0)], None).
Proof. reflexivity. Qed.

Example test_walk_toc_with_sections :
  walk_toc (PyList [PyTuple [Section (Some (lit "Section 1"));
                             PyList [Link (Some (lit "Child Chapter"))]]]) 0
  = ([(lit "Section 1", 0); (lit "Child Chapter", 1)], None).
Proof. reflexivity. Qed.

Example test_walk_toc_with_nested_structure :
  walk_toc (PyList [PyTuple [Section (Some (lit "Part 1"));
                             PyList [PyTuple [Section (Some (lit "Chapter 1"));
                                              PyList [Link (Some (lit "Content"))]]]]]) 0
  = ([(lit "Part 1", 0); (lit "Chapter 1", 1); (lit "Content", 2)], None).
Proof. reflexivity. Qed.

(** Children that cannot be iterated end the walk with a TypeError,
    after the entries yielded so far. *)
Example walk_toc_children_not_iterable :
  walk_toc (PyList [Link (Some (lit "A")); PyTuple [Section (Some (lit "S")); PyObj];
                    Link (Some (lit "B"))]) 0
  = ([(lit "A", 0); (lit "S", 0)], Some TypeError).
Proof. reflexivity. Qed.

(** ** Navigation trees are walked to the end *)

Lemma count_node_children (p : option str -> bool) (children : list pyval) :
  (fix sum (items : list pyval) : nat :=
     match items with
     | [] => 0
     | child :: rest => count_node p child + sum rest
     end) children
  = list_sum (map (count_node p) children).
Proof. induction children as [|c r IH]; simpl; [reflexivity | now rewrite IH]. Qed.

(** What walking a well-formed item or sequence gives: no exception, and
    one entry per node with a true title. *)
Definition walked_item (v : pyval) : Prop :=
  nav_node v = true ->
  forall level, exists out,
    walk_item v level = (out, None) /\ length out = count_node truthy v.

Definition walked_toc (v : pyval) : Prop :=
  nav_tree v = true ->
  forall level, exists out,
    walk_toc v level = (out, None) /\ length out = count_nodes truthy v.

Lemma walk_items_nav (items : list pyval) :
  Forall walked_item items ->
  forallb nav_node items = true ->
  forall level, exists out,
    walk_items items level = (out, None)
    /\ length out = list_sum (map (count_node truthy) items).
Proof.
  induction 1 as [|item rest Hitem _ IH]; intros Hnav level.
  - exists []. split; reflexivity.
  - cbn [forallb] in Hnav. apply andb_prop in Hnav as [Hi Hr].
    destruct (Hitem Hi level) as (o1 & E1 & L1).
    destruct (IH Hr level) as (o2 & E2 & L2).
    exists (o1 ++ o2). cbn [walk_items map list_sum].
    rewrite E1, E2, length_app, L1, L2. split; reflexivity.
Qed.

Lemma yield_title_count (title : option str) (level : nat) :
  exists out, yield_title title level = (out, None)
              /\ length out = if truthy title then 1 else 0.
Proof.
  rewrite yield_title_truthy. eexists; split; [reflexivity|].
  destruct (truthy title); reflexivity.
Qed.

Lemma walk_nav (v : pyval) : walked_item v /\ walked_toc v.
Proof.
  induction v as [t|t|elems IH|elems IH|] using pyval_ind.
  - split; [|discriminate]. intros _ level. apply yield_title_count.
  - split; [|discriminate]. intros _ level. apply yield_title_count.
  - split.
    + intros Hnav level.
      destruct elems as [|[t|t|e|e|] [|children [|x elems]]]; try discriminate;
        [|destruct children; discriminate].
      inversion IH as [|? ? _ IH1]; subst.
      inversion IH1 as [|? ? [_ Hch] _]; subst.
      assert (Hc : nav_tree children = true)
        by (destruct children; try discriminate; exact Hnav).
      destruct (Hch Hc (S level)) as (o2 & E2 & L2).
      destruct (yield_title_count t level) as (o1 & E1 & L1).
      exists (o1 ++ o2). cbn [walk_item]. rewrite E1, E2, length_app, L1, L2.
      split; [reflexivity|].
      destruct children; try discriminate;
        cbn [count_node count_nodes]; now rewrite count_node_children.
    + intros Hnav level. rewrite walk_toc_tuple.
      apply walk_items_nav; [|exact Hnav].
      eapply Forall_impl; [exact IH|]. now intros ? [].
  - split; [discriminate|].
    intros Hnav level. rewrite walk_toc_list.
    apply walk_items_nav; [|exact Hnav].
    eapply Forall_impl; [exact IH|]. now intros ? [].
  - split; discriminate.
Qed.

(** On a navigation tree the walk of this model, which has no limit on
    the depth of recursion, raises nothing and yields as many pairs as
    there are nodes whose title, as stored, is not empty. *)
Lemma walk_toc_nav_count (toc : pyval) (level : nat) :
  nav_tree toc = true ->
  exists out, walk_toc toc level = (out, None)
              /\ length out = count_nodes truthy toc.
Proof. intros H. now apply (proj2 (walk_nav toc)). Qed.

(** ** The flattener *)

(** C1. The claim is that no entry is emitted for a node whose trimmed
    title is empty and that the number of pairs equals the number of
    nodes with a non-empty trimmed title. [walk_toc] tests the title
    before it strips it: on the one-link tree whose title is two spaces
    it yields one pair, with the empty title, although the tree has no
    node whose trimmed title is non-empty. *)
Theorem walk_toc_blank_title :
  let toc := PyList [Link (Some (lit "  "))] in
  nav_tree toc = true
  /\ trimmed_nonempty (Some (lit "  ")) = false
  /\ walk_toc toc 0 = ([([], 0)], None)
  /\ count_nodes trimmed_nonempty toc = 0.
Proof. repeat split. Qed.

(** C2. A pair [(Section, children)] met at depth [d] after the siblings
    [pre] and before the siblings [post]: when its trimmed title is not
    empty, its entry comes at depth [d], right after the entries of
    [pre]; then come the entries of its children, walked at depth [d + 1];
    then those of [post]. In particular [[A, B]] with A holding
    [[A1, A2]] flattens to [[A, A1, A2, B]]. *)
Theorem walk_toc_section_order :
  (forall pre title children post d out_pre out_children out_post,
      walk_toc (PyList pre) d = (out_pre, None) ->
      walk_toc children (S d) = (out_children, None) ->
      walk_toc (PyList post) d = (out_post, None) ->
      strip title <> [] ->
      walk_toc (PyList (pre ++ PyTuple [Section (Some title); children] :: post)) d
      = (out_pre ++ (strip title, d) :: out_children ++ out_post, None))
  /\ (forall a a1 a2 b,
         a <> [] -> a1 <> [] -> a2 <> [] -> b <> [] ->
         walk_toc (PyList [PyTuple [Section (Some a);
                                    PyList [Link (Some a1); Link (Some a2)]];
                           Link (Some b)]) 0
         = ([(strip a, 0); (strip a1, 1); (strip a2, 1); (strip b, 0)], None)).
Proof.
  split.
  - intros pre title children post d o1 o2 o3 E1 E2 E3 Ht.
    rewrite walk_toc_list in *.
    rewrite walk_items_app, walk_items_cons, E1, E3.
    cbn [walk_item]. rewrite (yield_title_trimmed _ _ Ht), E2. reflexivity.
  - intros a a1 a2 b Ha Ha1 Ha2 Hb.
    destruct a, a1, a2, b; try contradiction. reflexivity.
Qed.

Lemma walk_toc_section_order_witness :
  walk_toc (PyList ([Link (Some (lit "Intro"))]
                    ++ PyTuple [Section (Some (lit " Part 1 "));
                                PyList [Link (Some (lit "Ch 1"))]]
                    :: [Link (Some (lit "End"))])) 0
  = ([(lit "Intro", 0)] ++ (strip (lit " Part 1 "), 0)
       :: [(lit "Ch 1", 1)] ++ [(lit "End", 0)], None).
Proof.
  apply (proj1 walk_toc_section_order); [reflexivity .. |].
  vm_compute. discriminate.
Defined.

(** C6. A pair [(Section, children)] whose title is missing or empty
    yields nothing for the section; its children are still walked, one
    level below the level of the section, so that when the children are
    titled links the output is exactly those links. *)
Theorem walk_toc_untitled_section :
  forall title level,
    title = None \/ title = Some [] ->
    (forall pre children post,
        walk_toc (PyList (pre ++ PyTuple [Section title; children] :: post)) level
        = (walk_toc (PyList pre) level >> walk_toc children (S level)
             >> walk_toc (PyList post) level)%gen)
    /\ (forall titles,
           Forall (fun t => t <> []) titles ->
           walk_toc (PyList [PyTuple [Section title;
                                      PyList (map (fun t => Link (Some t)) titles)]])
                    level
           = (map (fun t => (strip t, S level)) titles, None)).
Proof.
  intros title level Ht. split.
  - intros pre children post. rewrite !walk_toc_list.
    rewrite walk_items_app, walk_items_cons. cbn [walk_item].
    rewrite (yield_title_empty _ _ Ht), g_seq_done_l. reflexivity.
  - intros titles Hall. rewrite walk_toc_list.
    cbn [walk_items walk_item].
    rewrite (yield_title_empty _ _ Ht), g_seq_done_l, g_seq_done_r.
    rewrite walk_toc_list. now apply walk_items_links.
Qed.

Lemma walk_toc_untitled_section_witness :
  walk_toc (PyList [PyTuple [Section None;
                             PyList (map (fun t => Link (Some t))
                                         [lit "Ch 1"; lit "Ch 2"])]]) 3
  = (map (fun t => (strip t, 4)) [lit "Ch 1"; lit "Ch 2"], None).
Proof.
  apply (proj2 (walk_toc_untitled_section None 3 (or_introl eq_refl))).
  repeat constructor; discriminate.
Defined.

(** C10. An item that is not a Link, not a pair whose first element is a
    Section and not a bare Section is skipped: the walk gives what it gives
    with the item taken out, whatever the item holds, in both copies of
    [walk_toc] and whether the sequence is a list or a tuple. *)
Theorem walk_toc_skips_unrecognised :
  forall pre item post level,
    recognised item = false ->
    walk_toc (PyList (pre ++ item :: post)) level
    = walk_toc (PyList (pre ++ post)) level
    /\ walk_toc (PyTuple (pre ++ item :: post)) level
       = walk_toc (PyTuple (pre ++ post)) level
    /\ ExtractChapter.walk_toc (PyList (pre ++ item :: post)) level
       = ExtractChapter.walk_toc (PyList (pre ++ post)) level
    /\ ExtractChapter.walk_toc (PyTuple (pre ++ item :: post)) level
       = ExtractChapter.walk_toc (PyTuple (pre ++ post)) level.
Proof.
  intros pre item post level Hitem.
  assert (E : walk_items (pre ++ item :: post) level
              = walk_items (pre ++ post) level).
  { rewrite !walk_items_app, walk_items_cons.
    now rewrite (walk_item_unrecognised _ _ Hitem), g_seq_done_l. }
  assert (EL : walk_toc (PyList (pre ++ item :: post)) level
               = walk_toc (PyList (pre ++ post)) level)
    by (rewrite !walk_toc_list; exact E).
  assert (ET : walk_toc (PyTuple (pre ++ item :: post)) level
               = walk_toc (PyTuple (pre ++ post)) level)
    by (rewrite !walk_toc_tuple; exact E).
  repeat split; [exact EL | exact ET | | ];
    rewrite !walk_toc_copies; assumption.
Qed.

Lemma walk_toc_skips_unrecognised_witness :
  walk_toc (PyList ([Link (Some (lit "A"))]
                    ++ PyTuple [Link (Some (lit "Part"));
                                PyList [Link (Some (lit "Ch"))]]
                    :: [Link (Some (lit "B"))])) 0
  = walk_toc (PyList ([Link (Some (lit "A"))] ++ [Link (Some (lit "B"))])) 0.
Proof.
  apply (walk_toc_skips_unrecognised
           [Link (Some (lit "A"))]
           (PyTuple [Link (Some (lit "Part")); PyList [Link (Some (lit "Ch"))]])
           [Link (Some (lit "B"))] 0).
  reflexivity.
Defined.

(** ** The renderer *)

Lemma add_entries_map (toc_titles : list entry) (md_lines : list str) :
  add_entries toc_titles md_lines
  = md_lines ++ map (fun '(title, d) => repeat HASH (d + 2) ++ SPACE :: title)
                    toc_titles.
Proof.
  unfold add_entries. revert md_lines.
  induction toc_titles as [|[title d] rest IH]; intros md_lines; cbn [fold_left map].
  - now rewrite app_nil_r.
  - rewrite IH, <- app_assoc. reflexivity.
Qed.

(** Joining lines with a separator and adding the separator once more
    is ending every line with it. *)
Lemma join_terminated (sep : str) (l : str) (ls : list str) :
  join sep (l :: ls) ++ sep = concat (map (fun x => x ++ sep) (l :: ls)).
Proof.
  revert l. induction ls as [|l' ls IH]; intros l.
  - cbn. now rewrite app_nil_r.
  - change (join sep (l :: l' :: ls)) with (l ++ sep ++ join sep (l' :: ls)).
    rewrite <- !app_assoc, IH. cbn [map concat]. now rewrite (app_assoc l sep).
Qed.

(** C3. The document for a book title and a sequence of entries is the
    lines "# <book title>", "" and, for each entry of depth [d],
    [d + 2] marks, a space and the title as it is, joined by one newline
    and ended by one newline; that is, the heading line, a blank line,
    then every entry line, each closed by a single newline. *)
Theorem md_document_layout :
  forall (book_title : str) (entries : list entry),
    md_document (Some book_title) entries
    = join [NL] ((lit "# " ++ book_title) :: []
                 :: map (fun '(title, d) => repeat HASH (d + 2) ++ [SPACE] ++ title)
                        entries) ++ [NL]
    /\ md_document (Some book_title) entries
       = lit "# " ++ book_title ++ [NL] ++ [NL]
         ++ concat (map (fun '(title, d) =>
                           repeat HASH (d + 2) ++ [SPACE] ++ title ++ [NL])
                        entries).
Proof.
  intros book_title entries.
  assert (E : md_document (Some book_title) entries
              = join [NL] ((lit "# " ++ book_title) :: []
                 :: map (fun '(title, d) => repeat HASH (d + 2) ++ [SPACE] ++ title)
                        entries) ++ [NL]).
  { unfold md_document. rewrite add_entries_map. reflexivity. }
  split; [exact E|].
  rewrite E, join_terminated. cbn [map concat app].
  rewrite <- !app_assoc. do 4 f_equal.
  rewrite map_map. f_equal. apply map_ext. intros [title d].
  now rewrite <- app_assoc.
Qed.

(** ** The whole program *)

Section ProgramFacts.

Variable read_epub : gmap Path str -> str -> result book.
Variable str_title : str -> str.

Lemma collect_from (yielded acc : list entry) (seen : gset str) :
  fst (fold_left
         (fun '(toc_titles, titleized_toc) '(title, level) =>
            (toc_titles ++ [(title, level)],
             ({[ str_title title ]} : gset str) ∪ titleized_toc))
         yielded (acc, seen))
  = acc ++ yielded.
Proof.
  revert acc seen.
  induction yielded as [|[title level] rest IH]; intros acc seen; cbn [fold_left].
  - now rewrite app_nil_r.
  - rewrite IH, <- app_assoc. reflexivity.
Qed.

(** The titles handed to the renderer are the yielded ones, untouched. *)
Lemma collect_toc_titles (yielded : list entry) :
  fst (collect str_title yielded) = yielded.
Proof. unfold collect. now rewrite collect_from. Qed.

(** A run in which nothing raises. *)
Lemma toc_to_markdown_ok (epub_path output_file : Path) (w : world)
      (b : book) (yielded : list entry) :
  read_epub (files w) (Path_str epub_path) = Ok b ->
  output_file_of epub_path = Ok output_file ->
  walk_toc (toc b) 0 = (yielded, None) ->
  output_file ∉ unwritable w ->
  toc_to_markdown read_epub str_title epub_path w
  = (mkWorld (<[output_file := md_document (book_title_of b) yielded]> (files w))
             (unwritable w)
             (stdout w ++ [[9989%N] ++ lit " Success! Table of contents saved to: "
                           ++ Path_str output_file]),
     Ok tt).
Proof.
  intros Hload Hout Hwalk Hw. unfold toc_to_markdown.
  rewrite Hload, Hout, Hwalk.
  pose proof (collect_toc_titles yielded) as Hc.
  destruct (collect str_title yielded) as [toc_titles titleized_toc].
  cbn [fst] in Hc. subst toc_titles.
  unfold write_text. rewrite bool_decide_eq_false_2 by exact Hw. reflexivity.
Qed.


End ProgramFacts.

(** ** Paths *)

Lemma split_no_sep (sep : char) (s : str) :
  Forall (fun x => sep ∉ x) (split sep s).
Proof.
  induction s as [|c rest IH]; cbn [split].
  - repeat constructor. apply not_elem_of_nil.
  - destruct (N.eqb_spec c sep) as [->|Hne].
    + constructor; [apply not_elem_of_nil | exact IH].
    + destruct (split sep rest) as [|w ws].
      * repeat constructor. rewrite elem_of_cons, elem_of_nil. intuition congruence.
      * inversion IH as [|? ? Hw Hws]; subst. constructor; [|exact Hws].
        rewrite elem_of_cons. intuition congruence.
Qed.

(** No component of a parsed path holds a separator. *)
Lemma Path_of_components (s : str) :
  Forall (fun x => SLASH ∉ x) (tail (Path_of s)).
Proof.
  unfold Path_of. destruct (splitroot s) as [rt rel]. cbn [tail].
  apply Forall_forall. intros x Hx.
  apply list_elem_of_filter in Hx as [_ Hx].
  pose proof (split_no_sep SLASH rel) as Hall.
  rewrite Forall_forall in Hall. now apply Hall.
Qed.

Lemma name_no_sep (s : str) : SLASH ∉ name (Path_of s).
Proof.
  unfold name. destruct (last (tail (Path_of s))) as [n|] eqn:E;
    [|apply not_elem_of_nil].
  apply last_Some in E as [l' E].
  pose proof (Path_of_components s) as Hall. rewrite E in Hall.
  apply Forall_app in Hall as [_ Hn]. now inversion Hn.
Qed.

(** Where [rfind] finds the character there is one, and none after it. *)
Lemma rfind_Some (c : char) (s : str) (i : nat) :
  rfind c s = Some i ->
  exists pre post, s = pre ++ c :: post /\ length pre = i /\ c ∉ post.
Proof.
  revert i. induction s as [|x rest IH]; intros i; cbn [rfind]; [discriminate|].
  destruct (rfind c rest) as [j|] eqn:E.
  - intros [= <-]. destruct (IH j eq_refl) as (pre & post & -> & <- & Hpost).
    exists (x :: pre), post. repeat split; assumption.
  - destruct (N.eqb_spec x c) as [->|Hne]; [|discriminate].
    intros [= <-]. exists [], rest. repeat split.
    clear IH. induction rest as [|y r IHr]; [apply not_elem_of_nil|].
    cbn [rfind] in E. destruct (rfind c r); [discriminate|].
    destruct (N.eqb_spec y c); [discriminate|].
    rewrite elem_of_cons. intros [->|H]; [congruence | now apply IHr].
Qed.

Lemma stem_suffix (p : Path) : stem p ++ suffix p = name p.
Proof.
  unfold stem, suffix. destruct (rfind DOT (name p)) as [i|]; [|apply app_nil_r].
  destruct ((0 <? i) && (i <? length (name p) - 1));
    [apply take_drop | apply app_nil_r].
Qed.

(** The suffix is empty, or one dot followed by a non-empty extension
    without a dot. *)
Lemma suffix_shape (p : Path) :
  suffix p = [] \/ exists ext, suffix p = DOT :: ext /\ ext <> [] /\ DOT ∉ ext.
Proof.
  unfold suffix. destruct (rfind DOT (name p)) as [i|] eqn:E; [|now left].
  destruct ((0 <? i) && (i <? length (name p) - 1)) eqn:B; [|now left].
  right. apply rfind_Some in E as (pre & post & E & <- & Hpost).
  rewrite E in *. exists post.
  rewrite drop_app_length. repeat split; [|exact Hpost].
  intros ->. apply andb_prop in B as [_ B]. apply Nat.ltb_lt in B.
  rewrite length_app in B. cbn in B. lia.
Qed.

Lemma stem_no_sep (s : str) : SLASH ∉ stem (Path_of s).
Proof.
  intros H. apply (name_no_sep s). rewrite <- stem_suffix.
  apply elem_of_app. now left.
Qed.

(** The output file of a path that has a name. *)
Lemma output_file_of_named (s : str) :
  name (Path_of s) <> [] ->
  output_file_of (Path_of s)
  = Ok (mkPath (root (Path_of s))
               (removelast (tail (Path_of s))
                ++ [stem (Path_of s) ++ lit " - ToC.md"])).
Proof.
  intros Hname. unfold output_file_of, with_name, str_eqb.
  rewrite (bool_decide_eq_false_2 _ Hname).
  rewrite bool_decide_eq_false_2, bool_decide_eq_false_2, bool_decide_eq_false_2;
    [reflexivity | | | ].
  - intros H. apply (f_equal length) in H. rewrite length_app in H.
    cbn in H. lia.
  - rewrite elem_of_app. intros [H|H]; [now apply (stem_no_sep s)|].
    revert H. refine (bool_decide_unpack (SLASH ∉ lit " - ToC.md") _).
    vm_compute. exact I.
  - intros H. apply (f_equal length) in H. rewrite length_app in H.
    cbn in H. lia.
Qed.

(** C5, as amended. For every input path that has a name (a last
    component), the output file is derived without error, lies in the
    directory of the input and is named "<stem> - ToC.md", the stem being
    the name without its suffix, where the suffix is empty or is the last
    dot of the name with the dot-free, non-empty extension after it; a
    run that raises nothing leaves the document in that file whatever
    the file held before. So "/books/Foo Bar.v2.epub" gives
    "/books/Foo Bar.v2 - ToC.md". *)
Theorem output_file_next_to_input :
  (forall s,
      name (Path_of s) <> [] ->
      exists out,
        output_file_of (Path_of s) = Ok out
        /\ parent out = parent (Path_of s)
        /\ name out = stem (Path_of s) ++ lit " - ToC.md"
        /\ stem (Path_of s) ++ suffix (Path_of s) = name (Path_of s)
        /\ (suffix (Path_of s) = []
            \/ exists ext, suffix (Path_of s) = DOT :: ext
                           /\ ext <> [] /\ DOT ∉ ext)
        /\ forall read_epub str_title w b yielded,
            read_epub (files w) (Path_str (Path_of s)) = Ok b ->
            walk_toc (toc b) 0 = (yielded, None) ->
            out ∉ unwritable w ->
            files (fst (toc_to_markdown read_epub str_title (Path_of s) w)) !! out
            = Some (md_document (book_title_of b) yielded))
  /\ output_file_of (Path_of (lit "/books/Foo Bar.v2.epub"))
     = Ok (Path_of (lit "/books/Foo Bar.v2 - ToC.md"))
  /\ output_file_of (Path_of (lit "Foo Bar.epub"))
     = Ok (Path_of (lit "Foo Bar - ToC.md")).
Proof.
  split; [|split; reflexivity].
  intros s Hname. eexists. split; [now apply output_file_of_named|].
  split; [|split; [|split; [|split]]].
  - unfold parent. cbn [root tail]. now rewrite removelast_last.
  - unfold name at 1. cbn [tail]. now rewrite last_snoc.
  - apply stem_suffix.
  - apply suffix_shape.
  - intros read_epub str_title w b yielded Hload Hwalk Hw.
    erewrite toc_to_markdown_ok;
      [|exact Hload|now apply output_file_of_named|exact Hwalk|exact Hw].
    cbn [fst files]. apply lookup_insert_eq.
Qed.

Lemma output_file_next_to_input_witness :
  name (Path_of (lit "/books/Foo Bar.v2.epub")) <> []
  /\ exists out,
      output_file_of (Path_of (lit "/books/Foo Bar.v2.epub")) = Ok out
      /\ parent out = parent (Path_of (lit "/books/Foo Bar.v2.epub"))
      /\ name out = stem (Path_of (lit "/books/Foo Bar.v2.epub")) ++ lit " - ToC.md".
Proof.
  assert (H : name (Path_of (lit "/books/Foo Bar.v2.epub")) <> [])
    by (vm_compute; discriminate).
  split; [exact H|].
  destruct (proj1 output_file_next_to_input _ H) as (out & E & Hp & Hn & _).
  exists out. repeat split; assumption.
Defined.

(** C5, as stated, fails for a path without a name: for "." no output
    file is derived, [with_name] raises ValueError. *)
Lemma output_file_of_dot :
  name (Path_of (lit ".")) = []
  /\ output_file_of (Path_of (lit ".")) = Raise ValueError.
Proof. split; reflexivity. Qed.

(** C4. When the loader raises, [toc_to_markdown] leaves the world as it
    was - no file created or changed, nothing printed - and raises the
    same exception; so does [main], which calls it without a handler. *)
Theorem load_error_writes_nothing :
  forall read_epub str_title w e,
    (forall epub_path,
        read_epub (files w) (Path_str epub_path) = Raise e ->
        toc_to_markdown read_epub str_title epub_path w = (w, Raise e))
    /\ (forall epub_file,
           read_epub (files w) (Path_str (Path_of epub_file)) = Raise e ->
           main read_epub str_title epub_file w = (w, Raise e)).
Proof.
  intros read_epub str_title w e.
  assert (H : forall epub_path,
             read_epub (files w) (Path_str epub_path) = Raise e ->
             toc_to_markdown read_epub str_title epub_path w = (w, Raise e)).
  { intros epub_path Hload. unfold toc_to_markdown. now rewrite Hload. }
  split; [exact H|]. intros epub_file Hload. now apply H.
Qed.

Lemma load_error_writes_nothing_witness :
  main load_blank (fun t => t) (lit "missing.epub") empty_world
  = (empty_world, Raise (LoadError (lit "No such file or directory"))).
Proof.
  apply (proj2 (load_error_writes_nothing load_blank (fun t => t) empty_world
                  (LoadError (lit "No such file or directory")))).
  reflexivity.
Defined.

Example sample_book_title : book_title_of sample_book = Some (lit "Sample").
Proof. reflexivity. Qed.

Example sample_toc_walk :
  walk_toc sample_toc 0
  = ([(lit "Preface", 0); (lit "Part 1", 0); (lit "Ch 1", 1); (lit "Ch 2", 1)],
     None).
Proof. reflexivity. Qed.

(** C7. For the book titled "Sample" whose tree is [Preface], the
    section [Part 1] holding [Ch 1] and [Ch 2], and a link with the empty
    title, the walk yields the four titled entries and the run writes
    exactly the six lines "# Sample", "", "## Preface", "## Part 1",
    "### Ch 1", "### Ch 2", each ended by a newline, to the output file. *)
Theorem sample_document :
  walk_toc (toc sample_book) 0
  = ([(lit "Preface", 0); (lit "Part 1", 0); (lit "Ch 1", 1); (lit "Ch 2", 1)],
     None)
  /\ md_document (book_title_of sample_book) (fst (walk_toc (toc sample_book) 0))
     = lit "# Sample" ++ [NL] ++ [NL]
       ++ lit "## Preface" ++ [NL]
       ++ lit "## Part 1" ++ [NL]
       ++ lit "### Ch 1" ++ [NL]
       ++ lit "### Ch 2" ++ [NL]
  /\ forall str_title,
      toc_to_markdown (fun _ _ => Ok sample_book) str_title
                      (Path_of (lit "Sample.epub")) empty_world
      = (mkWorld {[ Path_of (lit "Sample - ToC.md") :=
                      lit "# Sample" ++ [NL] ++ [NL]
                      ++ lit "## Preface" ++ [NL]
                      ++ lit "## Part 1" ++ [NL]
                      ++ lit "### Ch 1" ++ [NL]
                      ++ lit "### Ch 2" ++ [NL] ]}
                 ∅
                 [[9989%N] ++ lit " Success! Table of contents saved to: "
                  ++ lit "Sample - ToC.md"],
         Ok tt).
Proof.
  split; [reflexivity|]. split; [reflexivity|].
  intros str_title.
  rewrite (toc_to_markdown_ok _ str_title (Path_of (lit "Sample.epub"))
             (Path_of (lit "Sample - ToC.md")) empty_world sample_book _
             eq_refl eq_refl sample_toc_walk (not_elem_of_empty _)).
  cbn [files unwritable stdout empty_world]. rewrite insert_empty.
  reflexivity.
Qed.

(** The default branch: when the metadata holds no title entry at all
    and the table of contents is empty, a run that can write its output
    file returns normally and the file holds exactly "# Untitled", a
    newline and a second newline. *)
Theorem empty_toc_untitled :
  forall read_epub str_title epub_path w b out,
    read_epub (files w) (Path_str epub_path) = Ok b ->
    toc b = PyList [] \/ toc b = PyTuple [] ->
    dc_titles b = [] ->
    output_file_of epub_path = Ok out ->
    out ∉ unwritable w ->
    exists w',
      toc_to_markdown read_epub str_title epub_path w = (w', Ok tt)
      /\ files w' = <[out := lit "# Untitled" ++ [NL; NL]]> (files w)
      /\ files w' !! out = Some (lit "# Untitled" ++ [NL; NL]).
Proof.
  intros read_epub str_title epub_path w b out Hload Htoc Htitles Hout Hw.
  assert (Hwalk : walk_toc (toc b) 0 = ([], None))
    by (destruct Htoc as [-> | ->]; reflexivity).
  assert (Htitle : book_title_of b = Some (lit "Untitled")).
  { unfold book_title_of. rewrite Htitles. now destruct (bool_decide _). }
  eexists. split; [eapply toc_to_markdown_ok; eassumption|].
  cbn [files]. rewrite Htitle.
  split; [reflexivity | apply lookup_insert_eq].
Qed.

Lemma empty_toc_untitled_witness :
  exists w',
    toc_to_markdown load_blank (fun t => t) (Path_of (lit "book.epub"))
                    one_book_world
    = (w', Ok tt)
    /\ files w' = <[Path_of (lit "book - ToC.md") := lit "# Untitled" ++ [NL; NL]]>
                    (files one_book_world)
    /\ files w' !! Path_of (lit "book - ToC.md")
       = Some (lit "# Untitled" ++ [NL; NL]).
Proof.
  apply (empty_toc_untitled load_blank (fun t => t) (Path_of (lit "book.epub"))
           one_book_world blank_book (Path_of (lit "book - ToC.md"))).
  - reflexivity.
  - left; reflexivity.
  - reflexivity.
  - reflexivity.
  - apply not_elem_of_empty.
Defined.

(** C8. The claim is that with an empty tree and no book title available
    the file holds "# Untitled", a newline and a second newline. The code
    falls back on "Untitled" only when the list of title entries is
    empty: for a book whose title entry has the value [None] the list is
    not empty, [book_title] becomes [None], and the run writes "# None",
    a newline and a second newline. *)
Theorem empty_toc_none_title :
  toc none_title_book = PyList []
  /\ dc_titles none_title_book = [MetaTuple None]
  /\ book_title_of none_title_book = None
  /\ md_document (book_title_of none_title_book)
                 (fst (walk_toc (toc none_title_book) 0))
     = lit "# None" ++ [NL; NL]
  /\ forall str_title,
      toc_to_markdown (fun _ _ => Ok none_title_book) str_title
                      (Path_of (lit "book.epub")) one_book_world
      = (mkWorld (<[Path_of (lit "book - ToC.md") := lit "# None" ++ [NL; NL]]>
                    (files one_book_world))
                 ∅
                 [[9989%N] ++ lit " Success! Table of contents saved to: "
                  ++ lit "book - ToC.md"],
         Ok tt).
Proof.
  split; [reflexivity|]. split; [reflexivity|]. split; [reflexivity|].
  split; [reflexivity|]. intros str_title.
  rewrite (toc_to_markdown_ok _ str_title (Path_of (lit "book.epub"))
             (Path_of (lit "book - ToC.md")) one_book_world none_title_book []
             eq_refl eq_refl eq_refl (not_elem_of_empty _)).
  reflexivity.
Qed.


(** * Further properties of the code *)

(** ** Stripping *)

Lemma lstrip_head (s : str) (c : char) (r : str) :
  lstrip s = c :: r -> is_space c = false.
Proof.
  induction s as [|x rest IH]; cbn [lstrip]; [discriminate|].
  destruct (is_space x) eqn:E; [exact IH|].
  now intros [= <- _].
Qed.

Lemma lstrip_fixed (c : char) (r : str) :
  is_space c = false -> lstrip (c :: r) = c :: r.
Proof. intros H. cbn [lstrip]. now rewrite H. Qed.

Lemma lstrip_lstrip (s : str) : lstrip (lstrip s) = lstrip s.
Proof.
  destruct (lstrip s) as [|c r] eqn:E; [reflexivity|].
  apply lstrip_fixed. now apply (lstrip_head s c r).
Qed.

Lemma lstrip_snoc (l : str) (c : char) :
  is_space c = false -> lstrip (l ++ [c]) = lstrip l ++ [c].
Proof.
  intros H. induction l as [|x l IH]; cbn [app lstrip].
  - now rewrite H.
  - destruct (is_space x); [exact IH | reflexivity].
Qed.

Lemma rstrip_rstrip (s : str) : rstrip (rstrip s) = rstrip s.
Proof. unfold rstrip. now rewrite rev_involutive, lstrip_lstrip. Qed.

(** Stripping on the right leaves a stripped left end alone. *)
Lemma lstrip_rstrip_lstrip (s : str) : lstrip (rstrip (lstrip s)) = rstrip (lstrip s).
Proof.
  destruct (lstrip s) as [|c r] eqn:E; [reflexivity|].
  pose proof (lstrip_head s c r E) as Hc.
  unfold rstrip. cbn [rev]. rewrite (lstrip_snoc _ _ Hc), rev_app_distr.
  cbn [rev app]. now apply lstrip_fixed.
Qed.

Lemma strip_strip (s : str) : strip (strip s) = strip s.
Proof.
  unfold strip at 1. fold (strip s).
  unfold strip at 1 2. now rewrite lstrip_rstrip_lstrip, rstrip_rstrip.
Qed.

(** A stripped string is empty exactly when every character is white space. *)
Lemma lstrip_nil (s : str) : lstrip s = [] <-> forallb is_space s = true.
Proof.
  induction s as [|c r IH]; cbn [lstrip forallb]; [tauto|].
  destruct (is_space c); cbn [andb]; [exact IH|].
  split; discriminate.
Qed.

Lemma strip_nil (s : str) : strip s = [] <-> forallb is_space s = true.
Proof.
  unfold strip, rstrip. split.
  - intros H. apply (f_equal (@rev _)) in H. rewrite rev_involutive in H.
    cbn [rev] in H. apply lstrip_nil in H.
    destruct (lstrip s) as [|c r] eqn:E; [now apply lstrip_nil|].
    pose proof (lstrip_head s c r E) as Hc.
    rewrite List.forallb_forall in H.
    rewrite (H c) in Hc; [discriminate|]. apply -> in_rev. now left.
  - intros H. apply lstrip_nil in H. now rewrite H.
Qed.

(** ** Reasoning on a value in its two roles

    A value is walked as a sequence ([walk_toc]) or met as an item of one
    ([walk_item]); a property of the walk is proved for both at once. *)
Lemma walk_roles_ind (T I : pyval -> Prop)
  (HT_list : forall elems, Forall I elems -> T (PyList elems))
  (HT_tuple : forall elems, Forall I elems -> T (PyTuple elems))
  (HT_link : forall title, T (Link title))
  (HT_section : forall title, T (Section title))
  (HT_obj : T PyObj)
  (HI_link : forall title, I (Link title))
  (HI_section : forall title, I (Section title))
  (HI_pair : forall title children, T children -> I (PyTuple [Section title; children]))
  (HI_other : forall v, recognised v = false -> I v) :
  forall v, T v /\ I v.
Proof.
  induction v as [t|t|elems IH|elems IH|] using pyval_ind.
  - split; [apply HT_link | apply HI_link].
  - split; [apply HT_section | apply HI_section].
  - split.
    + apply HT_tuple. eapply Forall_impl; [exact IH|]. now intros ? [].
    + destruct elems as [|[t|t|e|e|] [|children [|x elems]]];
        try (apply HI_other; reflexivity).
      apply HI_pair. inversion IH as [|? ? _ IH1]; subst.
      inversion IH1 as [|? ? [Hc _] _]; subst. exact Hc.
  - split.
    + apply HT_list. eapply Forall_impl; [exact IH|]. now intros ? [].
    + now apply HI_other.
  - split; [apply HT_obj | now apply HI_other].
Qed.

Lemma g_seq_Forall (P : entry -> Prop) (g1 g2 : gen) :
  Forall P (fst g1) -> Forall P (fst g2) -> Forall P (fst (g1 >> g2)%gen).
Proof.
  destruct g1 as [o1 [e|]]; cbn; [tauto|].
  intros H1 H2. now apply Forall_app.
Qed.

Lemma walk_items_Forall (P : entry -> Prop) (items : list pyval) (level : nat) :
  Forall (fun v => Forall P (fst (walk_item v level))) items ->
  Forall P (fst (walk_items items level)).
Proof.
  induction 1 as [|item rest Hitem _ IH]; cbn [walk_items]; [constructor|].
  now apply g_seq_Forall.
Qed.

(** A property of entries that holds of what is yielded at the current
    level, and at a level when it holds one level deeper, holds of all
    that [walk_toc] yields. *)
Lemma walk_toc_Forall (P : nat -> entry -> Prop)
  (Hyield : forall s level, s <> [] -> P level (strip s, level))
  (Hdown : forall level e, P (S level) e -> P level e) :
  forall toc level, Forall (P level) (fst (walk_toc toc level)).
Proof.
  assert (Hy : forall title level, Forall (P level) (fst (yield_title title level))).
  { intros title level. rewrite yield_title_truthy.
    destruct title as [[|c s]|]; cbn [truthy fst default]; constructor;
      [|constructor].
    now apply Hyield. }
  intros toc.
  refine (proj1 (walk_roles_ind
            (fun v => forall level, Forall (P level) (fst (walk_toc v level)))
            (fun v => forall level, Forall (P level) (fst (walk_item v level)))
            _ _ _ _ _ _ _ _ _ toc)).
  - intros elems H level. rewrite walk_toc_list. apply walk_items_Forall.
    eapply Forall_impl; [exact H|]. intros v Hv. apply Hv.
  - intros elems H level. rewrite walk_toc_tuple. apply walk_items_Forall.
    eapply Forall_impl; [exact H|]. intros v Hv. apply Hv.
  - intros; constructor.
  - intros; constructor.
  - intros; constructor.
  - intros title level. apply Hy.
  - intros title level. apply Hy.
  - intros title children Hc level. cbn [walk_item].
    apply g_seq_Forall; [apply Hy|].
    eapply Forall_impl; [apply Hc|]. intros e. apply Hdown.
  - intros v Hv level. rewrite (walk_item_unrecognised _ _ Hv). constructor.
Qed.

(** ** What [walk_toc] yields *)

(** X1. No yielded level is below the level the walk was started at,
    whatever the value walked and whether or not the walk ends in an
    exception. *)
Theorem walk_toc_levels_from_start :
  forall toc level title l,
    (title, l) ∈ fst (walk_toc toc level) -> level <= l.
Proof.
  intros toc level title l Hin.
  pose proof (walk_toc_Forall (fun level e => level <= snd e)) as H.
  specialize (H (fun s level _ => le_n level)).
  specialize (H (fun level e (He : S level <= snd e) => Nat.lt_le_incl _ _ He)).
  specialize (H toc level). rewrite Forall_forall in H.
  exact (H _ Hin).
Qed.

Lemma walk_toc_levels_from_start_witness :
  (lit "Ch", 3)
    ∈ fst (walk_toc (PyList [PyTuple [Section None; PyList [Link (Some (lit "Ch"))]]]) 2)
  /\ 2 <= 3.
Proof.
  assert (H : (lit "Ch", 3)
                ∈ fst (walk_toc (PyList [PyTuple [Section None;
                                                  PyList [Link (Some (lit "Ch"))]]]) 2))
    by (vm_compute; left).
  split; [exact H|]. exact (walk_toc_levels_from_start _ _ _ _ H).
Defined.

(** X2. Every yielded title is stripped: stripping it again changes
    nothing, so it neither starts nor ends with white space. *)
Theorem walk_toc_titles_stripped :
  forall toc level title l,
    (title, l) ∈ fst (walk_toc toc level) ->
    strip title = title /\ lstrip title = title /\ rstrip title = title.
Proof.
  intros toc level title l Hin.
  pose proof (walk_toc_Forall
                (fun _ e => strip (fst e) = fst e /\ lstrip (fst e) = fst e
                            /\ rstrip (fst e) = fst e)) as H.
  assert (H1 : forall s (level : nat), s <> [] ->
               strip (fst (strip s, level)) = fst (strip s, level)
               /\ lstrip (fst (strip s, level)) = fst (strip s, level)
               /\ rstrip (fst (strip s, level)) = fst (strip s, level)).
  { intros s lv _. cbn [fst]. split; [apply strip_strip|]. split.
    - apply lstrip_rstrip_lstrip.
    - apply rstrip_rstrip. }
  specialize (H H1 (fun _ _ He => He) toc level).
  rewrite Forall_forall in H. exact (H _ Hin).
Qed.

Lemma walk_toc_titles_stripped_witness :
  (lit "Ch 1", 0) ∈ fst (walk_toc (PyList [Link (Some (lit "  Ch 1 "))]) 0)
  /\ strip (lit "Ch 1") = lit "Ch 1".
Proof.
  assert (H : (lit "Ch 1", 0) ∈ fst (walk_toc (PyList [Link (Some (lit "  Ch 1 "))]) 0))
    by (vm_compute; left).
  split; [exact H|]. exact (proj1 (walk_toc_titles_stripped _ _ _ _ H)).
Defined.

(** ** Blank titles *)

Lemma has_blank_title_elems (elems : list pyval) :
  (fix any (l : list pyval) : bool :=
     match l with
     | [] => false
     | x :: r => has_blank_title x || any r
     end) elems
  = existsb has_blank_title elems.
Proof. induction elems as [|x r IH]; cbn; [reflexivity | now rewrite IH]. Qed.

Lemma has_blank_title_list (elems : list pyval) :
  has_blank_title (PyList elems) = existsb has_blank_title elems.
Proof. cbn [has_blank_title]. apply has_blank_title_elems. Qed.

Lemma has_blank_title_tuple (elems : list pyval) :
  has_blank_title (PyTuple elems) = existsb has_blank_title elems.
Proof. cbn [has_blank_title]. apply has_blank_title_elems. Qed.

Lemma existsb_false_Forall (elems : list pyval) :
  existsb has_blank_title elems = false ->
  Forall (fun v => has_blank_title v = false) elems.
Proof.
  induction elems as [|x r IH]; cbn [existsb]; [constructor|].
  intros H. apply orb_false_elim in H as [Hx Hr]. constructor; auto.
Qed.

(** Without a blank title the two ways of counting titled nodes agree. *)
Lemma not_blank_same_test (title : option str) :
  blank_title title = false -> truthy title = trimmed_nonempty title.
Proof.
  unfold blank_title. destruct title as [s|]; [|reflexivity].
  cbn [trimmed_nonempty]. destruct (strip s) eqn:E.
  - destruct (truthy (Some s)); [discriminate | reflexivity].
  - intros _. apply strip_nonempty_truthy. now rewrite E.
Qed.

Lemma yield_title_not_blank (title : option str) (level : nat) :
  blank_title title = false ->
  Forall (fun e : entry => fst e <> []) (fst (yield_title title level)).
Proof.
  intros H. destruct title as [s|]; [|constructor].
  unfold yield_title. destruct (truthy (Some s)) eqn:T; [|constructor].
  repeat constructor. cbn [fst]. intros E.
  unfold blank_title in H. rewrite T in H. cbn [trimmed_nonempty] in H.
  rewrite E in H. discriminate.
Qed.

Lemma walk_not_blank (v : pyval) :
  (has_blank_title v = false ->
   forall level, Forall (fun e : entry => fst e <> []) (fst (walk_toc v level)))
  /\ (has_blank_title v = false ->
      forall level, Forall (fun e : entry => fst e <> []) (fst (walk_item v level))).
Proof.
  apply (walk_roles_ind
           (fun v => has_blank_title v = false ->
                     forall level, Forall (fun e : entry => fst e <> [])
                                          (fst (walk_toc v level)))
           (fun v => has_blank_title v = false ->
                     forall level, Forall (fun e : entry => fst e <> [])
                                          (fst (walk_item v level)))).
  - intros elems H Hb level. rewrite walk_toc_list. apply walk_items_Forall.
    rewrite has_blank_title_list in Hb. apply existsb_false_Forall in Hb.
    rewrite Forall_forall in *. intros x Hx. now apply H; [|apply Hb].
  - intros elems H Hb level. rewrite walk_toc_tuple. apply walk_items_Forall.
    rewrite has_blank_title_tuple in Hb. apply existsb_false_Forall in Hb.
    rewrite Forall_forall in *. intros x Hx. now apply H; [|apply Hb].
  - intros; constructor.
  - intros; constructor.
  - intros; constructor.
  - intros title Hb level. now apply yield_title_not_blank.
  - intros title Hb level. now apply yield_title_not_blank.
  - intros title children Hc Hb level. rewrite has_blank_title_tuple in Hb.
    cbn [existsb has_blank_title] in Hb.
    apply orb_false_elim in Hb as [Ht Hb].
    apply orb_false_elim in Hb as [Hch _].
    cbn [walk_item]. apply g_seq_Forall; [now apply yield_title_not_blank|].
    now apply Hc.
  - intros x Hx _ level. rewrite (walk_item_unrecognised _ _ Hx). constructor.
Qed.

(** X3. When no Link or Section of the value has a title that is
    non-empty but all white space, no yielded title is empty. *)
Theorem walk_toc_titles_nonempty :
  forall toc level title l,
    has_blank_title toc = false ->
    (title, l) ∈ fst (walk_toc toc level) ->
    title <> [].
Proof.
  intros toc level title l Hb Hin.
  pose proof (proj1 (walk_not_blank toc) Hb level) as H.
  rewrite Forall_forall in H. exact (H _ Hin).
Qed.

Lemma walk_toc_titles_nonempty_witness :
  has_blank_title sample_toc = false
  /\ (lit "Part 1", 0) ∈ fst (walk_toc sample_toc 0)
  /\ lit "Part 1" <> [].
Proof.
  assert (Hb : has_blank_title sample_toc = false) by reflexivity.
  assert (Hin : (lit "Part 1", 0) ∈ fst (walk_toc sample_toc 0))
    by (vm_compute; right; left).
  split; [exact Hb|]. split; [exact Hin|].
  exact (walk_toc_titles_nonempty _ _ _ _ Hb Hin).
Defined.

Lemma count_not_blank (v : pyval) :
  (has_blank_title v = false ->
   count_nodes truthy v = count_nodes trimmed_nonempty v)
  /\ (has_blank_title v = false ->
      count_node truthy v = count_node trimmed_nonempty v).
Proof.
  assert (Hsum : forall elems,
             Forall (fun v => has_blank_title v = false ->
                              count_node truthy v = count_node trimmed_nonempty v)
                    elems ->
             existsb has_blank_title elems = false ->
             list_sum (map (count_node truthy) elems)
             = list_sum (map (count_node trimmed_nonempty) elems)).
  { induction 1 as [|x r Hx _ IH]; cbn [existsb map]; [reflexivity|].
    intros Hb. apply orb_false_elim in Hb as [Hbx Hbr].
    unfold list_sum in *. cbn [fold_right]. now rewrite (Hx Hbx), (IH Hbr). }
  apply (walk_roles_ind
           (fun v => has_blank_title v = false ->
                     count_nodes truthy v = count_nodes trimmed_nonempty v)
           (fun v => has_blank_title v = false ->
                     count_node truthy v = count_node trimmed_nonempty v)).
  - intros elems H Hb. rewrite has_blank_title_list in Hb. now apply Hsum.
  - intros elems H Hb. rewrite has_blank_title_tuple in Hb. now apply Hsum.
  - reflexivity.
  - reflexivity.
  - reflexivity.
  - intros title Hb. cbn in *. now rewrite (not_blank_same_test _ Hb).
  - intros title Hb. cbn in *. now rewrite (not_blank_same_test _ Hb).
  - intros title children Hc Hb. rewrite has_blank_title_tuple in Hb.
    cbn [existsb has_blank_title] in Hb.
    apply orb_false_elim in Hb as [Ht Hb].
    apply orb_false_elim in Hb as [Hch _].
    specialize (Hc Hch).
    destruct children as [t|t|e|e|]; try reflexivity;
      cbn [count_node count_nodes] in *;
      rewrite !count_node_children, Hc, (not_blank_same_test _ Ht); reflexivity.
  - intros x Hx _.
    destruct x as [t|t|[|[t|t|e|e|] [|children [|y elems]]]|e|];
      try discriminate; reflexivity.
Qed.

(** X4. On a navigation tree (links, bare sections and pairs of a
    section and a list or tuple of such nodes) [walk_toc] never raises a
    TypeError; and a walk of it that ran to its end has yielded one pair
    per node whose stored title is not empty, which, when no title is
    blank, is the number of nodes whose trimmed title is not empty.
    (Whether a very deep tree can be walked to its end depends on the
    interpreter's stack, which is not part of this model.) *)
Theorem walk_toc_nav_tree_finished_count :
  forall toc level,
    nav_tree toc = true ->
    snd (walk_toc toc level) <> Some TypeError
    /\ forall out,
        walk_toc toc level = (out, None) ->
        length out = count_nodes truthy toc
        /\ (has_blank_title toc = false ->
            length out = count_nodes trimmed_nonempty toc).
Proof.
  intros toc level Hnav.
  destruct (proj2 (walk_nav toc) Hnav level) as (out0 & E & L).
  split; [rewrite E; discriminate|].
  intros out Hout. rewrite E in Hout. injection Hout as <-.
  split; [exact L|].
  intros Hb. rewrite L. now apply (proj1 (count_not_blank toc)).
Qed.

Lemma walk_toc_nav_tree_finished_count_witness :
  nav_tree sample_toc = true
  /\ walk_toc sample_toc 0
     = ([(lit "Preface", 0); (lit "Part 1", 0); (lit "Ch 1", 1); (lit "Ch 2", 1)],
        None)
  /\ 4 = count_nodes truthy sample_toc.
Proof.
  assert (H : nav_tree sample_toc = true) by reflexivity.
  split; [exact H|]. split; [reflexivity|].
  exact (proj1 (proj2 (walk_toc_nav_tree_finished_count sample_toc 0 H) _ eq_refl)).
Defined.

(** ** Levels are relative, walks compose *)

Lemma g_shift_seq (k : nat) (g1 g2 : gen) :
  g_shift k (g1 >> g2)%gen = (g_shift k g1 >> g_shift k g2)%gen.
Proof.
  destruct g1 as [o1 [e|]], g2 as [o2 r]; cbn; [reflexivity|].
  unfold g_shift, shift_levels. cbn. now rewrite map_app.
Qed.

Lemma g_shift_yield_title (k : nat) (title : option str) (level : nat) :
  yield_title title (level + k) = g_shift k (yield_title title level).
Proof. rewrite !yield_title_truthy. now destruct (truthy title). Qed.

Lemma walk_items_shift (k : nat) (items : list pyval) :
  Forall (fun v => forall level, walk_item v (level + k) = g_shift k (walk_item v level))
         items ->
  forall level, walk_items items (level + k) = g_shift k (walk_items items level).
Proof.
  induction 1 as [|item rest Hitem _ IH]; intros level; [reflexivity|].
  cbn [walk_items]. now rewrite Hitem, IH, g_shift_seq.
Qed.

Lemma walk_shift (k : nat) (v : pyval) :
  (forall level, walk_toc v (level + k) = g_shift k (walk_toc v level))
  /\ (forall level, walk_item v (level + k) = g_shift k (walk_item v level)).
Proof.
  apply (walk_roles_ind
           (fun v => forall level, walk_toc v (level + k) = g_shift k (walk_toc v level))
           (fun v => forall level, walk_item v (level + k) = g_shift k (walk_item v level))).
  - intros elems H level. rewrite !walk_toc_list. now apply walk_items_shift.
  - intros elems H level. rewrite !walk_toc_tuple. now apply walk_items_shift.
  - reflexivity.
  - reflexivity.
  - reflexivity.
  - intros title level. apply g_shift_yield_title.
  - intros title level. apply g_shift_yield_title.
  - intros title children Hc level. cbn [walk_item].
    rewrite g_shift_seq, <- g_shift_yield_title.
    change (S (level + k)) with (S level + k). now rewrite Hc.
  - intros x Hx level. now rewrite !(walk_item_unrecognised _ _ Hx).
Qed.

(** X5. The levels are relative to the starting level: a walk started
    [k] levels deeper yields the same titles in the same order with every
    level raised by [k], and ends the same way. *)
Theorem walk_toc_level_shift :
  forall toc level k,
    walk_toc toc (level + k)
    = (map (fun '(title, l) => (title, l + k)) (fst (walk_toc toc level)),
       snd (walk_toc toc level)).
Proof. intros toc level k. apply (proj1 (walk_shift k toc)). Qed.

(** X6. Walking a sequence made of two parts is walking the first and
    then the second: the entries come in that order, and when the first
    part ends in an exception nothing of the second is yielded. *)
Theorem walk_toc_concat :
  forall pre post level,
    (forall out,
        walk_toc (PyList pre) level = (out, None) ->
        walk_toc (PyList (pre ++ post)) level
        = (out ++ fst (walk_toc (PyList post) level),
           snd (walk_toc (PyList post) level)))
    /\ (forall out e,
           walk_toc (PyList pre) level = (out, Some e) ->
           walk_toc (PyList (pre ++ post)) level = (out, Some e)).
Proof.
  intros pre post level. rewrite !walk_toc_list, walk_items_app.
  split.
  - intros out E. now rewrite E.
  - intros out e E. now rewrite E.
Qed.

Lemma walk_toc_concat_witness :
  walk_toc (PyList ([Link (Some (lit "A")); PyTuple [Section None; PyObj]]
                    ++ [Link (Some (lit "B"))])) 0
  = ([(lit "A", 0)], Some TypeError).
Proof.
  apply (proj2 (walk_toc_concat
                  [Link (Some (lit "A")); PyTuple [Section None; PyObj]]
                  [Link (Some (lit "B"))] 0)).
  reflexivity.
Defined.

(** X7. A pair [(Section, children)] whose second element cannot be
    iterated ends the walk with a TypeError: the entries of the earlier
    siblings and the section's own entry have been yielded, the later
    siblings are never reached. *)
Theorem walk_toc_children_not_iterable_raises :
  forall pre title children post level out_pre,
    iterable children = false ->
    walk_toc (PyList pre) level = (out_pre, None) ->
    walk_toc (PyList (pre ++ PyTuple [Section title; children] :: post)) level
    = (out_pre ++ (if truthy title then [(strip (default [] title), level)] else []),
       Some TypeError).
Proof.
  intros pre title children post level out_pre Hit Hpre.
  rewrite walk_toc_list in *. rewrite walk_items_app, Hpre, walk_items_cons.
  cbn [walk_item]. rewrite yield_title_truthy.
  assert (Hc : walk_toc children (S level) = g_raise TypeError)
    by (destruct children; try discriminate; reflexivity).
  rewrite Hc. now destruct (truthy title).
Qed.

Lemma walk_toc_children_not_iterable_raises_witness :
  walk_toc (PyList ([Link (Some (lit "A"))]
                    ++ PyTuple [Section (Some (lit "S")); Link (Some (lit "x"))]
                    :: [Link (Some (lit "B"))])) 0
  = ([(lit "A", 0)] ++ [(strip (lit "S"), 0)], Some TypeError).
Proof.
  apply (walk_toc_children_not_iterable_raises
           [Link (Some (lit "A"))] (Some (lit "S")) (Link (Some (lit "x")))
           [Link (Some (lit "B"))] 0 [(lit "A", 0)]); reflexivity.
Defined.

(** ** Runs of [toc_to_markdown] *)

(** X9. The output path is never the input path: it has the parent of
    the input and another name, since a name that ended in " - ToC.md"
    after its own stem would have " - ToC.md" as its suffix, and a suffix
    starts with a dot. (Paths are compared as paths; links between files
    are not in the model.) *)
Theorem output_path_differs_from_input :
  forall p out,
    output_file_of p = Ok out ->
    out <> p /\ name out <> name p /\ parent out = parent p.
Proof.
  intros p out H. unfold output_file_of, with_name, str_eqb in H.
  destruct (bool_decide (name p = [])) eqn:Hn; [discriminate|].
  destruct ((_ || _) || _); [discriminate|].
  injection H as <-.
  assert (Hname : name (mkPath (root p)
                               (removelast (tail p) ++ [stem p ++ lit " - ToC.md"]))
                  <> name p).
  { unfold name at 1. cbn [tail]. rewrite last_snoc. cbn [default].
    intros Hname. rewrite <- (stem_suffix p) in Hname.
    apply app_inv_head in Hname.
    destruct (suffix_shape p) as [E | (ext & E & _)]; rewrite E in Hname;
      discriminate. }
  split; [|split; [exact Hname|]].
  - intros Heq. apply Hname. exact (f_equal name Heq).
  - unfold parent. cbn [root tail]. now rewrite removelast_last.
Qed.

Lemma output_path_differs_from_input_witness :
  output_file_of (Path_of (lit "notes/book - ToC.md"))
  = Ok (Path_of (lit "notes/book - ToC - ToC.md"))
  /\ Path_of (lit "notes/book - ToC - ToC.md") <> Path_of (lit "notes/book - ToC.md").
Proof.
  assert (H : output_file_of (Path_of (lit "notes/book - ToC.md"))
              = Ok (Path_of (lit "notes/book - ToC - ToC.md"))) by reflexivity.
  split; [exact H|]. exact (proj1 (output_path_differs_from_input _ _ H)).
Defined.


(** X8. A failure before the write - in the loader, in the derivation
    of the output file or during the walk of the tree - is raised
    unchanged and leaves the world as it was: the pairs yielded before an
    exception in the walk are thrown away, no file is created or changed
    and nothing is printed. *)
Theorem toc_to_markdown_fails_before_write :
  forall read_epub str_title epub_path w e,
    read_epub (files w) (Path_str epub_path) = Raise e
    \/ (exists b,
           read_epub (files w) (Path_str epub_path) = Ok b
           /\ output_file_of epub_path = Raise e)
    \/ (exists b out yielded,
           read_epub (files w) (Path_str epub_path) = Ok b
           /\ output_file_of epub_path = Ok out
           /\ walk_toc (toc b) 0 = (yielded, Some e)) ->
    toc_to_markdown read_epub str_title epub_path w = (w, Raise e).
Proof.
  intros read_epub str_title epub_path w e H. unfold toc_to_markdown.
  destruct H as [Hload | [(b & Hload & Hout) | (b & out & yielded & Hload & Hout & Hwalk)]].
  - now rewrite Hload.
  - now rewrite Hload, Hout.
  - now rewrite Hload, Hout, Hwalk.
Qed.

Lemma toc_to_markdown_fails_before_write_witness :
  toc_to_markdown
    (fun _ _ => Ok (mkBook ∅ (PyList [Link (Some (lit "A"));
                                      PyTuple [Section (Some (lit "S")); PyObj]])))
    (fun t => t) (Path_of (lit "book.epub")) one_book_world
  = (one_book_world, Raise TypeError).
Proof.
  apply toc_to_markdown_fails_before_write.
  right. right. eexists _, _, _. repeat split; reflexivity.
Defined.



(** ** The book title *)

(** X11. The heading uses the first Dublin Core title entry only,
    whether it is stored as a tuple or bare; "Untitled" is used exactly
    when there is no entry; an entry whose value is [None] gives the
    heading "# None". *)
Theorem book_title_first_entry :
  forall b,
    (dc_titles b = [] -> book_title_of b = Some (lit "Untitled"))
    /\ (forall value rest,
           dc_titles b = MetaTuple value :: rest
           \/ dc_titles b = MetaPlain value :: rest ->
           book_title_of b = value)
    /\ (forall rest yielded,
           dc_titles b = MetaTuple None :: rest ->
           exists more, md_document (book_title_of b) yielded
                        = lit "# None" ++ [NL] ++ more).
Proof.
  intros b.
  assert (Hdc : dc_titles b <> [] -> bool_decide (is_Some (metadata b !! DC)) = true).
  { unfold dc_titles. intros H. apply bool_decide_eq_true.
    destruct (metadata b !! DC); [eauto|]. now elim H. }
  assert (Hfirst : forall value rest,
             dc_titles b = MetaTuple value :: rest
             \/ dc_titles b = MetaPlain value :: rest ->
             book_title_of b = value).
  { intros value rest H. unfold book_title_of. rewrite Hdc.
    - destruct H as [-> | ->]; reflexivity.
    - destruct H as [-> | ->]; discriminate. }
  split; [|split; [exact Hfirst|]].
  - intros H. unfold book_title_of. rewrite H. now destruct (bool_decide _).
  - intros rest yielded H. rewrite (Hfirst None rest (or_introl H)).
    unfold md_document. rewrite add_entries_map. cbn [app format default].
    destruct yielded as [|[t d] ys]; cbn [map join]; eexists; reflexivity.
Qed.

Lemma book_title_first_entry_witness :
  book_title_of (mkBook {[ DC := {[ lit "title" :=
                                      [MetaPlain (Some (lit "One"));
                                       MetaTuple (Some (lit "Two"))] ]} ]}
                        (PyList []))
  = Some (lit "One").
Proof.
  apply (proj1 (proj2 (book_title_first_entry _)) _ [MetaTuple (Some (lit "Two"))]).
  right. reflexivity.
Defined.

(** ** The titleized set *)

Lemma collect_titleized (str_title : str -> str) (yielded : list entry) :
  snd (collect str_title yielded)
  = list_to_set (map (fun e => str_title (fst e)) yielded).
Proof.
  assert (H : forall acc (seen : gset str),
             snd (fold_left
                    (fun '(toc_titles, titleized_toc) '(title, level) =>
                       (toc_titles ++ [(title, level)],
                        ({[ str_title title ]} : gset str) ∪ titleized_toc))
                    yielded (acc, seen))
             = list_to_set (map (fun e => str_title (fst e)) yielded) ∪ seen).
  { induction yielded as [|[t l] rest IH]; intros acc seen; cbn [fold_left map].
    - cbn [list_to_set snd]. now rewrite union_empty_l_L.
    - rewrite IH. cbn [list_to_set fst].
      rewrite (comm_L (∪) {[str_title t]} (list_to_set _)).
      now rewrite (assoc_L (∪)). }
  unfold collect. rewrite H. apply union_empty_r_L.
Qed.

Lemma size_list_to_set_le (l : list str) :
  size (list_to_set l : gset str) <= length l.
Proof.
  induction l as [|x l IH]; cbn [list_to_set length].
  - now rewrite size_empty.
  - rewrite size_union_alt, size_singleton.
    apply le_n_S. etransitivity; [|exact IH].
    apply subseteq_size. now apply subseteq_difference_l.
Qed.

(** X12. The set built beside the output holds exactly the title-cased
    forms of the yielded titles, so it never has more elements than there
    are entries. *)
Theorem titleized_set_content :
  forall (str_title : str -> str) (yielded : list entry),
    (forall x, x ∈ snd (collect str_title yielded)
               <-> exists title level, (title, level) ∈ yielded /\ x = str_title title)
    /\ size (snd (collect str_title yielded)) <= length yielded.
Proof.
  intros str_title yielded. rewrite (collect_titleized str_title). split.
  - intros x. rewrite elem_of_list_to_set, list_elem_of_fmap. split.
    + intros ([t l] & -> & Hin). eauto.
    + intros (t & l & Hin & ->). exists (t, l). split; [reflexivity | exact Hin].
  - etransitivity; [apply size_list_to_set_le|]. now rewrite length_map.
Qed.

(** ** The older script *)

(** The document of the current script, character by character. *)
Lemma md_document_closed (book_title : str) (entries : list entry) :
  md_document (Some book_title) entries
  = lit "# " ++ book_title ++ [NL] ++ [NL]
    ++ concat (map (fun '(title, d) =>
                      repeat HASH (d + 2) ++ [SPACE] ++ title ++ [NL])
                   entries).
Proof.
  unfold md_document. rewrite add_entries_map. cbn [app format default].
  rewrite join_terminated. cbn [map concat app].
  rewrite <- !app_assoc. do 4 f_equal.
  rewrite map_map. f_equal. apply map_ext. intros [title d].
  now rewrite <- app_assoc.
Qed.

(** X13. The older script writes the entry lines only: a lone newline
    when nothing was yielded, otherwise every entry line followed by a
    newline; with at least one entry, the document of the current script
    is the heading line, a blank line and then the older document. *)
Theorem older_document_layout :
  ExtractChapterScript.md_document [] = [NL]
  /\ (forall yielded,
         yielded <> [] ->
         ExtractChapterScript.md_document yielded
         = concat (map (fun '(title, d) =>
                          repeat HASH (d + 2) ++ [SPACE] ++ title ++ [NL])
                       yielded)
         /\ forall book_title,
             md_document (Some book_title) yielded
             = lit "# " ++ book_title ++ [NL] ++ [NL]
               ++ ExtractChapterScript.md_document yielded).
Proof.
  split; [reflexivity|]. intros yielded Hne.
  assert (Hlines : concat (map (fun x => x ++ [NL])
                     (map (fun '(title, d) => repeat HASH (d + 2) ++ SPACE :: title)
                          yielded))
                   = concat (map (fun '(title, d) =>
                                    repeat HASH (d + 2) ++ [SPACE] ++ title ++ [NL])
                                 yielded)).
  { rewrite map_map. f_equal. apply map_ext. intros [title d].
    now rewrite <- app_assoc. }
  assert (Hold : ExtractChapterScript.md_document yielded
                 = concat (map (fun '(title, d) =>
                                  repeat HASH (d + 2) ++ [SPACE] ++ title ++ [NL])
                               yielded)).
  { unfold ExtractChapterScript.md_document. rewrite add_entries_map.
    cbn [app]. destruct yielded as [|e rest]; [now elim Hne|].
    cbn [map]. rewrite join_terminated. exact Hlines. }
  split; [exact Hold|]. intros book_title. rewrite Hold.
  apply md_document_closed.
Qed.

Lemma older_document_layout_witness :
  ExtractChapterScript.md_document [(lit "Ch", 1)] = lit "### Ch" ++ [NL].
Proof.
  apply (proj1 (proj2 older_document_layout [(lit "Ch", 1)] ltac:(discriminate))).
Defined.

(** ** Paths without a name *)

(** X15. The output file cannot be derived exactly when the path has no
    name ("." or "/", for instance); the call then raises ValueError once
    the book is loaded and leaves the world as it was. *)
Theorem nameless_path_raises :
  forall s,
    (name (Path_of s) = [] <-> output_file_of (Path_of s) = Raise ValueError)
    /\ (forall read_epub str_title w b,
           name (Path_of s) = [] ->
           read_epub (files w) (Path_str (Path_of s)) = Ok b ->
           main read_epub str_title s w = (w, Raise ValueError)).
Proof.
  intros s.
  assert (H : name (Path_of s) = [] -> output_file_of (Path_of s) = Raise ValueError).
  { intros Hn. unfold output_file_of, with_name, str_eqb.
    now rewrite (bool_decide_eq_true_2 _ Hn). }
  split; [split; [exact H|]|].
  - intros Hr. destruct (decide (name (Path_of s) = [])) as [Hn|Hn]; [exact Hn|].
    rewrite (output_file_of_named s Hn) in Hr. discriminate.
  - intros read_epub str_title w b Hn Hload. unfold main, toc_to_markdown.
    now rewrite Hload, (H Hn).
Qed.

Lemma nameless_path_raises_witness :
  main (fun _ _ => Ok blank_book) (fun t => t) (lit "./") empty_world
  = (empty_world, Raise ValueError).
Proof.
  apply (proj2 (nameless_path_raises (lit "./")) _ _ _ blank_book); reflexivity.
Defined.

(** ** Heading lines *)

Lemma split_once_hashes (n : nat) (title : str) :
  split_once SPACE (repeat HASH n ++ [SPACE] ++ title) = [repeat HASH n; title].
Proof.
  induction n as [|n IH]; [reflexivity|].
  cbn [repeat app split_once]. cbn [app] in IH. now rewrite IH.
Qed.

(** X16. An entry line taken apart at its first space, as the tests do,
    gives back two parts: the marks, which are [level + 2] '#' characters
    and nothing else, and the title exactly as it was yielded. *)
Theorem entry_line_parts :
  forall title level,
    split_once SPACE (str_mul HASH (level + 2) ++ [SPACE] ++ title)
    = [repeat HASH (level + 2); title]
    /\ length (repeat HASH (level + 2)) = level + 2
    /\ Forall (fun c => c = HASH) (repeat HASH (level + 2)).
Proof.
  intros title level. split; [apply split_once_hashes|].
  split; [apply repeat_length|].
  apply Forall_forall. intros c Hc. apply list_elem_of_In in Hc.
  now apply repeat_spec in Hc.
Qed.

(** ** Paths and their spelling *)

Lemma split_whole (sep : char) (t : str) : sep ∉ t -> split sep t = [t].
Proof.
  induction t as [|c r IH]; intros H; [reflexivity|].
  cbn [split]. destruct (N.eqb_spec c sep) as [->|Hne].
  - elim H. left.
  - rewrite IH; [reflexivity|]. intros Hr. apply H. now right.
Qed.

Lemma split_at_sep (sep : char) (t rest : str) :
  sep ∉ t -> split sep (t ++ sep :: rest) = t :: split sep rest.
Proof.
  induction t as [|c r IH]; intros H; cbn [app split].
  - now rewrite N.eqb_refl.
  - destruct (N.eqb_spec c sep) as [->|Hne].
    + elim H. left.
    + rewrite IH; [reflexivity|]. intros Hr. apply H. now right.
Qed.

(** Joining components and splitting again gives the components back. *)
Lemma split_join (sep : char) (parts : list str) :
  parts <> [] ->
  Forall (fun x => sep ∉ x) parts ->
  split sep (join [sep] parts) = parts.
Proof.
  induction parts as [|t ts IH]; intros Hne Hall; [now elim Hne|].
  inversion Hall as [|? ? Ht Hts]; subst.
  destruct ts as [|t2 ts]; [now apply split_whole|].
  change (join [sep] (t :: t2 :: ts)) with (t ++ sep :: join [sep] (t2 :: ts)).
  rewrite (split_at_sep _ _ _ Ht), IH; [reflexivity | discriminate | exact Hts].
Qed.

Lemma filter_keeps_all (P : str -> Prop) `{forall x, Decision (P x)} (l : list str) :
  Forall P l -> filter P l = l.
Proof.
  induction 1 as [|x l Hx _ IH]; [reflexivity|].
  rewrite filter_cons_True by exact Hx. now rewrite IH.
Qed.

Lemma join_head (c : char) (t : str) (ts : list str) :
  exists rest, join [SLASH] ((c :: t) :: ts) = c :: rest.
Proof. destruct ts; cbn; eauto. Qed.

Lemma splitroot_relative (c : char) (rest : str) :
  c <> SLASH ->
  splitroot (c :: rest) = ([], c :: rest)
  /\ splitroot (SLASH :: c :: rest) = ([SLASH], c :: rest)
  /\ splitroot (SLASH :: SLASH :: c :: rest) = ([SLASH; SLASH], c :: rest).
Proof.
  intros Hc. unfold splitroot, str_eqb. cbn [take drop].
  assert (Hne : [c] <> [SLASH]) by congruence.
  rewrite (bool_decide_eq_false_2 _ Hne).
  rewrite !(bool_decide_eq_true_2 ([SLASH] = [SLASH]) eq_refl).
  repeat split.
Qed.

(** A path of the shape [Path(...)] builds is what its string parses to. *)
Lemma Path_round_trip (p : Path) : wf_Path p -> Path_of (Path_str p) = p.
Proof.
  destruct p as [rt tl]. intros [Hroot Htail]. cbn [root tail] in *.
  destruct tl as [|t ts].
  { destruct Hroot as [->|[->| ->]]; reflexivity. }
  assert (Hparts : Forall (fun x => SLASH ∉ x) (t :: ts)).
  { eapply Forall_impl; [exact Htail|]. now intros x (_ & _ & Hx). }
  assert (Hkeep : Forall (fun x => x <> [] /\ x <> [DOT]) (t :: ts)).
  { eapply Forall_impl; [exact Htail|]. now intros x (H1 & H2 & _). }
  pose proof (split_join SLASH (t :: ts) ltac:(discriminate) Hparts) as Hsplit.
  inversion Htail as [|? ? (Hne & _ & Hsl) _]; subst.
  destruct t as [|c t]; [now elim Hne|].
  assert (Hc : c <> SLASH) by (intros ->; apply Hsl; left).
  destruct (join_head c t ts) as [rest Hj].
  destruct (splitroot_relative c rest Hc) as (S0 & S1 & S2).
  unfold Path_str, Path_of. cbn [root tail].
  unfold char, str in *. rewrite Hj in Hsplit |- *.
  destruct Hroot as [->|[->| ->]]; cbn [app].
  - rewrite S0, Hsplit. f_equal. now apply filter_keeps_all.
  - rewrite S1, Hsplit. f_equal. now apply filter_keeps_all.
  - rewrite S2, Hsplit. f_equal. now apply filter_keeps_all.
Qed.

Lemma Path_of_wf (s : str) : wf_Path (Path_of s).
Proof.
  unfold wf_Path, Path_of. destruct (splitroot s) as [rt rel] eqn:E.
  cbn [root tail]. split.
  - unfold splitroot, str_eqb in E.
    destruct s as [|a [|b r]]; cbn [take drop] in E;
      repeat case_bool_decide; cbn [negb orb] in E;
      injection E as <- _; auto; simplify_eq; auto.
  - apply Forall_forall. intros x Hx.
    apply list_elem_of_filter in Hx as [[H1 H2] Hx].
    pose proof (split_no_sep SLASH rel) as Hall.
    rewrite Forall_forall in Hall. auto.
Qed.

Lemma removelast_Forall (P : str -> Prop) (l : list str) :
  Forall P l -> Forall P (removelast l).
Proof.
  induction 1 as [|x l Hx Hl IH]; [constructor|].
  destruct l; [constructor|]. cbn [removelast] in *. now constructor.
Qed.

(** The output file of a well-formed path is well-formed. *)
Lemma output_file_wf (p out : Path) :
  wf_Path p -> output_file_of p = Ok out -> wf_Path out.
Proof.
  intros [Hroot Htail]. unfold output_file_of, with_name, str_eqb.
  repeat case_bool_decide; cbn [orb]; try discriminate.
  intros [= <-]. split; [exact Hroot|]. cbn [tail].
  apply Forall_app. split; [now apply removelast_Forall|].
  repeat constructor; assumption.
Qed.


(** X18. The path named in the success message is the file written:
    the output file of a parsed path is a normal path, and its string
    parses back to it. *)
Theorem output_file_round_trip :
  forall s out,
    output_file_of (Path_of s) = Ok out ->
    Path_of (Path_str out) = out.
Proof.
  intros s out Hout. apply Path_round_trip.
  exact (output_file_wf _ _ (Path_of_wf s) Hout).
Qed.

Lemma output_file_round_trip_witness :
  Path_of (Path_str (Path_of (lit "/books/Foo Bar.v2 - ToC.md")))
  = Path_of (lit "/books/Foo Bar.v2 - ToC.md").
Proof.
  apply (output_file_round_trip (lit "/books//Foo Bar.v2.epub")). reflexivity.
Defined.
